(** * Backchannel filtering and turn-taking decisions of the voice agent

    A shallow embedding of [examples/voice_agents/basic_agent.py]: the
    configurable ignore list [IGNORE_WORDS], the classifier
    [InterruptionHandler.is_backchannel], the decision function
    [InterruptionHandler.should_interrupt] and the two session callbacks
    [on_transcription] and [on_user_speech_committed].

    Python strings are sequences of Unicode code points; the string methods
    the classifier calls ([replace], [translate], [lower], [split], [strip])
    are modelled after CPython's [unicodeobject.c]. *)

From Stdlib Require Import NArith List String Ascii Lia.
From stdpp Require Import base decidable countable list gmap sets.

Local Open Scope N_scope.

Reserved Notation "x <- m ;; k"
  (at level 100, m at next level, right associativity).

(** ** Python strings *)

(** A code point, and a [str] as the sequence of its code points. *)
Abbreviation codepoint := N (only parsing).
Abbreviation str := (list N) (only parsing).

(** A string literal of the source file (all of them are ASCII). *)
Definition py (s : string) : str :=
  List.map N_of_ascii (list_ascii_of_string s).

Module PyStr.

(** [Py_UNICODE_ISSPACE]: the code points for which [str.isspace] holds,
    as listed in [_PyUnicode_IsWhitespace]. [str.split()] and
    [str.strip()] without arguments both use it. *)
Definition isspace (c : codepoint) : bool :=
  ((0x09 <=? c) && (c <=? 0x0D)) || ((0x1C <=? c) && (c <=? 0x20))
  || (c =? 0x85) || (c =? 0xA0) || (c =? 0x1680)
  || ((0x2000 <=? c) && (c <=? 0x200A))
  || (c =? 0x2028) || (c =? 0x2029) || (c =? 0x202F) || (c =? 0x205F)
  || (c =? 0x3000).

(** [string.punctuation], the 32 ASCII punctuation characters. *)
Definition punctuation : str :=
  py "!" ++ [0x22] ++ py "#$%&'()*+,-./:;<=>?@[\]^_`{|}~".

Definition is_punctuation (c : codepoint) : bool :=
  bool_decide (c ∈ punctuation).

(** [s.replace(old, new)] for a one-character [old]: every occurrence is
    replaced. *)
Definition replace (old : codepoint) (new : str) (s : str) : str :=
  List.concat (List.map (fun c => if c =? old then new else [c]) s).

(** [s.translate(str.maketrans('', '', deleted))]: the table maps every
    character of [deleted] to [None], which removes it, and has no other
    entry. *)
Definition translate_delete (deleted : str) (s : str) : str :=
  List.filter (fun c => negb (bool_decide (c ∈ deleted))) s.

(** [s.split()]: the runs of non-whitespace characters, in order
    ([split_whitespace] of [stringlib/split.h]). [cur] is the run being
    read, most recent character first. *)
Fixpoint split_from (cur : str) (s : str) : list str :=
  match s with
  | [] => match cur with [] => [] | _ => [List.rev cur] end
  | c :: rest =>
      if isspace c then
        match cur with
        | [] => split_from [] rest
        | _ => List.rev cur :: split_from [] rest
        end
      else split_from (c :: cur) rest
  end.

Definition split (s : str) : list str := split_from [] s.

(** [s.strip()]: leading and trailing whitespace removed. *)
Fixpoint lstrip (s : str) : str :=
  match s with
  | c :: rest => if isspace c then lstrip rest else s
  | [] => []
  end.
Definition rstrip (s : str) : str := List.rev (lstrip (List.rev s)).
Definition strip (s : str) : str := rstrip (lstrip s).

(** Lowercasing of an ASCII character: [A-Z] moves to [a-z]. *)
Definition ascii_lower (c : codepoint) : codepoint :=
  if (0x41 <=? c) && (c <=? 0x5A) then c + 32 else c.

(** The case tables of the Unicode database are not part of the
    repository. [to_lower_full] stands for [_PyUnicode_ToLowerFull] on the
    code points from 128 up, and [final_sigma s i] for the context test
    that [handle_capital_sigma] makes at position [i] of [s]. *)
Class CaseTables := {
  to_lower_full : codepoint -> str;
  final_sigma : str -> nat -> bool
}.

Section Lower.

Context `{!CaseTables}.

(** [lower_ucs4]: the lowercase expansion of the character [c] found at
    position [i] of [s]. *)
Definition lower_ucs4 (s : str) (i : nat) (c : codepoint) : str :=
  if c =? 0x3A3 then [if final_sigma s i then 0x3C2 else 0x3C3]
  else if c <? 128 then [ascii_lower c]
  else to_lower_full c.

Fixpoint lower_from (s : str) (i : nat) (rest : str) : str :=
  match rest with
  | [] => []
  | c :: rest' => lower_ucs4 s i c ++ lower_from s (S i) rest'
  end.

(** [s.lower()] *)
Definition lower (s : str) : str := lower_from s 0%nat s.




End Lower.

(** The tables cut down to ASCII text: every code point from 128 up is its
    own lowercase form and no sigma is final. On ASCII text [lower] never
    consults them. *)
Definition ascii_tables : CaseTables :=
  {| to_lower_full := fun c => [c]; final_sigma := fun _ _ => false |}.

End PyStr.

Import PyStr.

(** ** The configurable ignore list *)

Definition IGNORE_WORDS : gset str :=
  list_to_set (List.map py
    [ "yeah"; "yep"; "yes"; "ok"; "okay"; "alright";
      "hmm"; "mhm"; "aha"; "uh-huh"; "uhhuh"; "mm-hm";
      "right"; "sure"; "correct"; "yea"; "oka" ]%string).

(** ** InterruptionHandler *)

Section InterruptionHandler.

Context `{!CaseTables}.

(** [text.replace("-", " ").translate(str.maketrans('', '',
    string.punctuation)).lower()] *)
Definition clean_text (text : str) : str :=
  lower (translate_delete punctuation (replace 0x2D (py " ") text)).

Definition words (text : str) : list str := split (clean_text text).

(** The body of [is_backchannel], for a given value of the module global
    [IGNORE_WORDS]. *)
Definition is_backchannel_in (ignore_words : gset str) (text : str) : bool :=
  match words text with
  | [] => true
  | ws => bool_decide (list_to_set ws ⊆ ignore_words)
  end.

Definition is_backchannel (text : str) : bool :=
  is_backchannel_in IGNORE_WORDS text.

Definition should_interrupt (text : str) (is_agent_speaking : bool) : bool :=
  if negb is_agent_speaking then false
  else if is_backchannel text then false
  else true.

End InterruptionHandler.

(** ** The session callbacks *)

(** The three decisions the callbacks log. *)
Inductive log_tag := INTERRUPT | IGNORE | REPLY.

(** What a callback does to the world outside, in the order it does it. *)
Inductive effect :=
| logger_info (tag : log_tag) (text : str)
| interrupt          (* session.response_agent.interrupt() *)
| generate_reply.    (* session.generate_reply() *)

Record message := { content : str }.

(** The part of the session the callbacks read. *)
Record session := { is_speaking : bool }.

Section Callbacks.

Context `{!CaseTables}.

(** [on_transcription], with the decision function it looks up on
    [InterruptionHandler] made explicit. *)
Definition on_transcription_with
    (decide_interrupt : str -> bool -> bool)
    (s : session) (msg : message) : list effect :=
  let text := strip (content msg) in
  match text with
  | [] => []
  | _ =>
      let speaking := is_speaking s in
      if decide_interrupt text speaking then
        [logger_info INTERRUPT text; interrupt]
      else if speaking then [logger_info IGNORE text]
      else []
  end.

Definition on_transcription : session -> message -> list effect :=
  on_transcription_with should_interrupt.

Definition on_user_speech_committed (s : session) (msg : message)
    : list effect :=
  if negb (is_speaking s) then
    let text := strip (content msg) in
    [logger_info REPLY text; generate_reply]
  else [].

End Callbacks.

(** ** Canonical lexicon entries *)

Section Canonical.

Context `{!CaseTables}.

(** A token in canonical form: lowercase (lowercasing leaves it as it is)
    and free of whitespace and of punctuation, hyphens included. *)
Definition canonical (tok : str) : bool :=
  bool_decide (lower tok = tok)
  && forallb (fun c => negb (isspace c) && negb (is_punctuation c)) tok.

End Canonical.

(** ** The classifier as the specification words it *)

(** The six steps of the specification, written out on their own: the
    character classes and the lowering of letters are spelled here and
    share nothing with the model of the string methods above. *)
Module Spec.

Definition between (lo hi c : codepoint) : bool := (lo <=? c) && (c <=? hi).

(** A punctuation character: a visible ASCII character that is neither a
    letter nor a digit. *)
Definition punctuation_char (c : codepoint) : bool :=
  between 0x21 0x7E c
  && negb (between 0x30 0x39 c)
  && negb (between 0x41 0x5A c)
  && negb (between 0x61 0x7A c).

(** The whitespace characters: tab to carriage return, the four
    information separators, the space, next line, and the Unicode spaces
    and line and paragraph separators. *)
Definition whitespace_chars : str :=
  [ 0x09; 0x0A; 0x0B; 0x0C; 0x0D; 0x1C; 0x1D; 0x1E; 0x1F; 0x20;
    0x85; 0xA0; 0x1680;
    0x2000; 0x2001; 0x2002; 0x2003; 0x2004; 0x2005; 0x2006; 0x2007;
    0x2008; 0x2009; 0x200A;
    0x2028; 0x2029; 0x202F; 0x205F; 0x3000 ].

Definition whitespace (c : codepoint) : bool :=
  bool_decide (c ∈ whitespace_chars).

(** The capital letters of ASCII, each with its small letter. *)
Definition letters : list (codepoint * codepoint) :=
  List.combine (py "ABCDEFGHIJKLMNOPQRSTUVWXYZ")
               (py "abcdefghijklmnopqrstuvwxyz").

Fixpoint small_of (pairs : list (codepoint * codepoint)) (c : codepoint)
    : codepoint :=
  match pairs with
  | [] => c
  | (capital, small) :: rest =>
      if c =? capital then small else small_of rest c
  end.

Section Spec.

Context `{!CaseTables}.

(** Step 1: every hyphen becomes a single space. *)
Definition replace_hyphens (text : str) : str :=
List.map (fun c => if c =? 0x2D then 0x20 else c) text.

(** Step 2: punctuation characters are dropped. *)
Fixpoint strip_punctuation (text : str) : str :=
  match text with
  | [] => []
  | c :: rest =>
      if punctuation_char c then strip_punctuation rest
      else c :: strip_punctuation rest
  end.

(** Step 3: every character gives way to its lowercase form: an ASCII
    capital to its small letter, a capital sigma to one of the two small
    sigmas, any other character to what the Unicode tables say. *)
Definition lowercase_at (text : str) (i : nat) (c : codepoint) : str :=
  if c <? 128 then [small_of letters c]
  else if c =? 0x3A3 then [if final_sigma text i then 0x3C2 else 0x3C3]
  else to_lower_full c.

Definition lowercase (text : str) : str :=
  List.concat (imap (lowercase_at text) text).

(** Step 4: the pieces between whitespace characters, empty ones
    included, and then the non-empty ones among them. *)
Fixpoint fields (text : str) : list str :=
  match text with
  | [] => [[]]
  | c :: rest =>
      if whitespace c then [] :: fields rest
      else match fields rest with
           | f :: fs => (c :: f) :: fs
           | [] => [[c]]
           end
  end.

Definition nonempty (tok : str) : bool :=
match tok with [] => false | _ => true end.

Definition tokens (text : str) : list str :=
  List.filter nonempty (fields text).

(** The lexicon's contract: every token is a member. *)
Definition contains_all (lexicon : gset str) (toks : list str) : bool :=
forallb (fun tok => bool_decide (tok ∈ lexicon)) toks.

(** Steps 1 to 6. *)
Definition is_backchannel_spec (lexicon : gset str) (text : str) : bool :=
  let toks :=
    tokens (lowercase (strip_punctuation (replace_hyphens text))) in
  match toks with
  | [] => true
  | _ => contains_all lexicon toks
  end.

End Spec.
End Spec.

(** ** The classifier on arbitrary Python values *)

Module Dynamic.

Inductive exn := AttributeError | TypeError | OtherError.

Inductive result (A : Type) :=
| Return (a : A)
| Raise (e : exn).
Arguments Return {A} a.
Arguments Raise {A} e.

Definition bind {A B} (m : result A) (k : A -> result B) : result B :=
  match m with
  | Return a => k a
  | Raise e => Raise e
  end.

Notation "x <- m ;; k" := (bind m (fun x => k)).

Definition returns {A} (m : result A) : Prop := ∃ a, m = Return a.

(** The payloads a caller can hand to the classifier: [None], a [str], or
    any other object. What the method calls of [is_backchannel] make of
    another object is up to the methods that object brings along (an [int]
    has no [replace], a [collections.UserString] answers like a [str]), so
    such an object stands here for the outcome it leads to. *)
Inductive value :=
| PyNone
| PyStr (s : str)
| PyObject (outcome : result bool).

Section Dynamic.

Context `{!CaseTables}.

Definition is_backchannel_dyn (text : value) : result bool :=
  match text with
  | PyNone => Raise AttributeError    (* None has no attribute replace *)
  | PyStr s =>
      let ws :=
        split (lower (translate_delete punctuation
                        (replace 0x2D (py " ") s))) in
      match ws with
      | [] => Return true
      | _ => Return (bool_decide (list_to_set ws ⊆ IGNORE_WORDS))
      end
  | PyObject outcome => outcome
  end.

Definition should_interrupt_dyn (text : value) (is_agent_speaking : bool)
    : result bool :=
  if negb is_agent_speaking then Return false
  else
    b <- is_backchannel_dyn text ;;
    if b then Return false else Return true.

End Dynamic.

End Dynamic.

(** ** The classifier over the module's mutable globals *)

Module Stateful.

(** [IGNORE_WORDS] is a module-level binding to a mutable set. *)
Record globals := { global_IGNORE_WORDS : gset str }.

Definition initial_globals : globals :=
  {| global_IGNORE_WORDS := IGNORE_WORDS |}.

Definition St (A : Type) : Type := globals -> A * globals.

Definition ret {A} (a : A) : St A := fun g => (a, g).

Definition bind {A B} (m : St A) (k : A -> St B) : St B :=
  fun g => let (a, g') := m g in k a g'.

Notation "x <- m ;; k" := (bind m (fun x => k)).

Definition read_IGNORE_WORDS : St (gset str) :=
  fun g => (global_IGNORE_WORDS g, g).

(** The same call made two times in a row. *)
Definition twice {A} (m : St A) : St (A * A) :=
  a <- m ;; b <- m ;; ret (a, b).

Section Stateful.

Context `{!CaseTables}.

Definition is_backchannel_st (text : str) : St bool :=
  match words text with
  | [] => ret true
  | ws =>
      ignore_words <- read_IGNORE_WORDS ;;
      ret (bool_decide (list_to_set ws ⊆ ignore_words))
  end.

Definition should_interrupt_st (text : str) (is_agent_speaking : bool)
    : St bool :=
  if negb is_agent_speaking then ret false
  else
    b <- is_backchannel_st text ;;
    if b then ret false else ret true.

End Stateful.

End Stateful.

(** * Properties *)

(** ** The classifier on the hyphenated interjection *)

Lemma not_in_IGNORE_WORDS (tok : str) :
  bool_decide (tok ∈ IGNORE_WORDS) = false → tok ∉ IGNORE_WORDS.
Proof. intros H. by apply bool_decide_eq_false in H. Qed.

(** C1: on ["uh-huh"] the classifier reads the two tokens ["uh"] and
    ["huh"], as the specification says, but neither is in [IGNORE_WORDS],
    which holds the hyphenated spelling instead, so the code answers
    false. *)
Theorem is_backchannel_uh_huh `{!CaseTables} :
  words (py "uh-huh") = [py "uh"; py "huh"]
  ∧ (py "uh" ∉ IGNORE_WORDS) ∧ (py "huh" ∉ IGNORE_WORDS)
  ∧ py "uh-huh" ∈ IGNORE_WORDS
  ∧ is_backchannel (py "uh-huh") = false.
Proof.
  split; [reflexivity|].
  split; [by apply not_in_IGNORE_WORDS|].
  split; [by apply not_in_IGNORE_WORDS|].
  split; [|by vm_compute].
  apply (bool_decide_unpack _). by vm_compute.
Qed.

(** ** The turn-completion trigger *)

(** C2: [on_user_speech_committed] calls [generate_reply] exactly when the
    agent is not speaking, whatever the finalized text is; when the agent is
    speaking it does nothing. *)
Theorem on_user_speech_committed_reply (s : session) (msg : message) :
  (generate_reply ∈ on_user_speech_committed s msg ↔ is_speaking s = false)
  ∧ on_user_speech_committed s msg =
      (if is_speaking s then []
       else [logger_info REPLY (strip (content msg)); generate_reply]).
Proof.
  unfold on_user_speech_committed. destruct (is_speaking s); simpl.
  - split; [|done]. split; [|done]. by intros ?%elem_of_nil.
  - split; [|done]. split; [done|]. intros _. set_solver.
Qed.

(** ** The partial-transcription trigger *)

(** C3: while the agent is speaking, [should_interrupt] is the negation of
    [is_backchannel], and on a text that is not empty [on_transcription]
    logs IGNORE and leaves the agent alone when the text is a backchannel,
    and logs INTERRUPT and interrupts the agent when it is not. *)
Theorem should_interrupt_speaking `{!CaseTables} (text : str) (msg : message) :
  text ≠ [] → strip (content msg) = text →
  should_interrupt text true = negb (is_backchannel text)
  ∧ on_transcription {| is_speaking := true |} msg =
      (if is_backchannel text then [logger_info IGNORE text]
       else [logger_info INTERRUPT text; interrupt]).
Proof.
  intros Hne Hmsg. split.
  - unfold should_interrupt. simpl. by destruct (is_backchannel text).
  - unfold on_transcription, on_transcription_with, should_interrupt.
    rewrite Hmsg. simpl. destruct text as [|c text]; [done|].
    by destruct (is_backchannel (c :: text)).
Qed.

Lemma should_interrupt_speaking_witness :
  (@should_interrupt ascii_tables (py "yeah") true = false
   ∧ @on_transcription ascii_tables {| is_speaking := true |}
       {| content := py " yeah " |} = [logger_info IGNORE (py "yeah")])
  ∧ (@should_interrupt ascii_tables (py "stop") true = true
     ∧ @on_transcription ascii_tables {| is_speaking := true |}
         {| content := py "stop" |}
       = [logger_info INTERRUPT (py "stop"); interrupt]).
Proof.
  split.
  - apply (@should_interrupt_speaking ascii_tables (py "yeah")
             {| content := py " yeah " |}); [discriminate|reflexivity].
  - apply (@should_interrupt_speaking ascii_tables (py "stop")
             {| content := py "stop" |}); [discriminate|reflexivity].
Defined.

(** C4: while the agent is not speaking, [should_interrupt] is false for
    every text and [on_transcription] does nothing at all. *)
Theorem should_interrupt_silent `{!CaseTables} (text : str) (msg : message) :
  should_interrupt text false = false
  ∧ on_transcription {| is_speaking := false |} msg = [].
Proof.
  split; [done|].
  unfold on_transcription, on_transcription_with. simpl.
  by destruct (strip (content msg)).
Qed.

(** ** Empty text *)

(** C5, as stated, fails on the turn-completion trigger: a finalized text
    of three spaces strips to the empty string, and with the agent silent
    the callback still logs REPLY and generates a reply. *)
Lemma on_user_speech_committed_blank :
  strip (py "   ") = []
  ∧ on_user_speech_committed {| is_speaking := false |}
      {| content := py "   " |} = [logger_info REPLY []; generate_reply].
Proof. split; reflexivity. Qed.

(** C5, amended: on a text that strips to the empty string the
    partial-transcription trigger does nothing and never consults the
    decision function; the turn-completion trigger does nothing while the
    agent is speaking and replies when the agent is silent. *)
Theorem blank_text_actions `{!CaseTables}
    (decide_interrupt : str -> bool -> bool) (s : session) (msg : message) :
  strip (content msg) = [] →
  on_transcription_with decide_interrupt s msg = []
  ∧ on_transcription s msg = []
  ∧ on_user_speech_committed s msg =
      (if is_speaking s then [] else [logger_info REPLY []; generate_reply]).
Proof.
  intros Hblank.
  unfold on_transcription, on_transcription_with, on_user_speech_committed.
  rewrite Hblank. by destruct (is_speaking s).
Qed.

Lemma blank_text_actions_witness :
  on_transcription_with (fun _ _ => true) {| is_speaking := true |}
      {| content := py "   " |} = []
  ∧ @on_transcription ascii_tables {| is_speaking := true |}
      {| content := py "   " |} = []
  ∧ on_user_speech_committed {| is_speaking := true |}
      {| content := py "   " |} = [].
Proof.
  apply (@blank_text_actions ascii_tables (fun _ _ => true)
           {| is_speaking := true |} {| content := py "   " |}).
  reflexivity.
Defined.

(** ** Payloads that are not strings *)

(** C7, as stated, fails: handed [None], [is_backchannel] raises, and so
    does [should_interrupt] while the agent is speaking. *)
Lemma classifier_raises_on_None :
  @Dynamic.is_backchannel_dyn ascii_tables Dynamic.PyNone
    = Dynamic.Raise Dynamic.AttributeError
  ∧ ¬ Dynamic.returns (@Dynamic.is_backchannel_dyn ascii_tables Dynamic.PyNone)
  ∧ ¬ Dynamic.returns
        (@Dynamic.should_interrupt_dyn ascii_tables Dynamic.PyNone true).
Proof.
  split; [reflexivity|]. split; intros [b Hb]; discriminate Hb.
Qed.

(** C7, amended: on every string, the type the code declares for [text],
    both functions return a boolean (the one the typed model computes) and
    raise nothing; [should_interrupt] also returns, false, on any payload
    while the agent is not speaking; on [None], [is_backchannel] raises
    [AttributeError], and [should_interrupt] with it while the agent is
    speaking. Nothing is said of other objects that are not strings. *)
Theorem classifier_total_on_str `{!CaseTables}
    (s : str) (speaking : bool) (v : Dynamic.value) :
  Dynamic.is_backchannel_dyn (Dynamic.PyStr s)
    = Dynamic.Return (is_backchannel s)
  ∧ Dynamic.should_interrupt_dyn (Dynamic.PyStr s) speaking
    = Dynamic.Return (should_interrupt s speaking)
  ∧ Dynamic.should_interrupt_dyn v false = Dynamic.Return false
  ∧ Dynamic.is_backchannel_dyn Dynamic.PyNone
    = Dynamic.Raise Dynamic.AttributeError
  ∧ Dynamic.should_interrupt_dyn Dynamic.PyNone true
    = Dynamic.Raise Dynamic.AttributeError.
Proof.
  assert (Hb : Dynamic.is_backchannel_dyn (Dynamic.PyStr s)
               = Dynamic.Return (is_backchannel s)).
  { unfold Dynamic.is_backchannel_dyn, is_backchannel, is_backchannel_in,
      words, clean_text.
    by destruct (split _). }
  split; [exact Hb|]. split; [|by repeat split].
  unfold Dynamic.should_interrupt_dyn, should_interrupt.
  destruct speaking; [|done]. cbn [negb].
  rewrite Hb. simpl. by destruct (is_backchannel s).
Qed.

(** ** The lexicon entries *)

(** C8: [IGNORE_WORDS] holds two entries that are not in canonical form,
    ["uh-huh"] and ["mm-hm"], each with a hyphen; every other entry is
    canonical. The classifier rejects both spellings when it hears them. *)
Theorem IGNORE_WORDS_not_canonical `{!CaseTables} :
  py "uh-huh" ∈ IGNORE_WORDS ∧ canonical (py "uh-huh") = false
  ∧ py "mm-hm" ∈ IGNORE_WORDS ∧ canonical (py "mm-hm") = false
  ∧ set_Forall (λ tok, canonical tok = true)
      (IGNORE_WORDS ∖ {[ py "uh-huh"; py "mm-hm" ]})
  ∧ is_backchannel (py "mm-hm") = false.
Proof.
  split; [apply (bool_decide_unpack _); by vm_compute|].
  split; [by vm_compute|].
  split; [apply (bool_decide_unpack _); by vm_compute|].
  split; [by vm_compute|].
  split; [|by vm_compute].
  intros tok [Hin Hout]%elem_of_difference.
  unfold IGNORE_WORDS in Hin. apply elem_of_list_to_set in Hin.
  simpl in Hin.
  repeat (apply elem_of_cons in Hin as [->|Hin];
          [first [by vm_compute | exfalso; apply Hout; set_solver]|]).
  by apply elem_of_nil in Hin.
Qed.

(** ** Classification reads the globals and leaves them alone *)

(** C9: run against any value of the module globals, [is_backchannel] and
    [should_interrupt] hand the globals back as they found them, so that a
    second call with the same input gives the same boolean; started from the
    globals of the module they compute [is_backchannel] and
    [should_interrupt]. *)
Theorem classification_is_pure `{!CaseTables}
    (g : Stateful.globals) (text : str) (speaking : bool) :
  Stateful.is_backchannel_st text g
    = (is_backchannel_in (Stateful.global_IGNORE_WORDS g) text, g)
  ∧ snd (Stateful.should_interrupt_st text speaking g) = g
  ∧ (∃ b, Stateful.twice (Stateful.is_backchannel_st text) g = ((b, b), g))
  ∧ (∃ b, Stateful.twice (Stateful.should_interrupt_st text speaking) g
          = ((b, b), g))
  ∧ fst (Stateful.is_backchannel_st text Stateful.initial_globals)
    = is_backchannel text
  ∧ fst (Stateful.should_interrupt_st text speaking Stateful.initial_globals)
    = should_interrupt text speaking.
Proof.
  assert (Hb : ∀ g', Stateful.is_backchannel_st text g'
               = (is_backchannel_in (Stateful.global_IGNORE_WORDS g') text, g')).
  { intros g'. unfold Stateful.is_backchannel_st, is_backchannel_in.
    by destruct (words text). }
  assert (Hs : ∀ g', Stateful.should_interrupt_st text speaking g'
               = (if negb speaking then false
                  else if is_backchannel_in
                            (Stateful.global_IGNORE_WORDS g') text
                       then false else true, g')).
  { intros g'. unfold Stateful.should_interrupt_st.
    destruct speaking; simpl; [|done].
    unfold Stateful.bind. rewrite Hb.
    by destruct (is_backchannel_in _ _). }
  repeat split.
  - apply Hb.
  - by rewrite Hs.
  - eexists. unfold Stateful.twice, Stateful.bind. by rewrite !Hb.
  - eexists. unfold Stateful.twice, Stateful.bind. by rewrite !Hs.
  - by rewrite Hb.
  - by rewrite Hs.
Qed.

(** ** The classifier against its specification *)

(** The character classes of the specification are those of the string
    methods. *)

Lemma punctuation_range (c : codepoint) :
  c ∈ punctuation →
  33 <= c <= 47 ∨ 58 <= c <= 64 ∨ 91 <= c <= 96 ∨ 123 <= c <= 126.
Proof.
  revert c. apply Forall_forall.
  let p := eval vm_compute in punctuation in change punctuation with p.
  repeat (apply Forall_cons; split; [lia|]). apply Forall_nil_2.
Qed.

Lemma not_punctuation (c : codepoint) :
  ¬ (33 <= c <= 126) ∨ 48 <= c <= 57 ∨ 65 <= c <= 90 ∨ 97 <= c <= 122 →
  is_punctuation c = false.
Proof.
  intros Hc. apply bool_decide_eq_false. intros Hin%punctuation_range. lia.
Qed.

Lemma below_forallb (n : N) (f : codepoint → bool) :
  forallb (λ k, f (N.of_nat k)) (seq 0 (N.to_nat n)) = true →
  ∀ c, c < n → f c = true.
Proof.
  intros Hall c Hc. rewrite forallb_forall in Hall.
  specialize (Hall (N.to_nat c)). rewrite N2Nat.id in Hall.
  apply Hall, in_seq. lia.
Qed.

Lemma punctuation_char_eq (c : codepoint) :
  is_punctuation c = Spec.punctuation_char c.
Proof.
  destruct (N.lt_ge_cases c 128) as [Hc|Hc].
  - apply Bool.eqb_prop. revert c Hc.
    apply (below_forallb 128
             (λ c, Bool.eqb (is_punctuation c) (Spec.punctuation_char c))).
    by vm_compute.
  - rewrite not_punctuation by lia.
    unfold Spec.punctuation_char, Spec.between.
    assert ((c <=? 126) = false) as -> by (apply N.leb_gt; lia).
    by rewrite andb_false_r.
Qed.

Lemma whitespace_eq (c : codepoint) : isspace c = Spec.whitespace c.
Proof.
  destruct (N.lt_ge_cases c 12289) as [Hc|Hc].
  - apply Bool.eqb_prop. revert c Hc.
    apply (below_forallb 12289
             (λ c, Bool.eqb (isspace c) (Spec.whitespace c))).
    by vm_compute.
  - assert (Hsp : isspace c = false).
    { destruct (isspace c) eqn:Hsp; [exfalso|done]. unfold isspace in Hsp.
      repeat (apply orb_true_iff in Hsp as [Hsp|Hsp]);
        try (apply andb_true_iff in Hsp as [?%N.leb_le ?%N.leb_le]);
        try (apply N.eqb_eq in Hsp); lia. }
    rewrite Hsp. symmetry. apply bool_decide_eq_false.
    assert (Hall : Forall (λ c, c < 12289) Spec.whitespace_chars).
    { unfold Spec.whitespace_chars.
      repeat (apply Forall_cons; split; [lia|]). apply Forall_nil_2. }
    rewrite Forall_forall in Hall. intros Hin%Hall. lia.
Qed.

Lemma small_of_letters (c : codepoint) :
  c < 128 → Spec.small_of Spec.letters c = ascii_lower c.
Proof.
  intros Hc. apply N.eqb_eq. revert c Hc.
  apply (below_forallb 128
           (λ c, Spec.small_of Spec.letters c =? ascii_lower c)).
  by vm_compute.
Qed.

Section Refinement.

Context `{!CaseTables}.

Lemma replace_hyphens_eq (text : str) :
  replace 0x2D (py " ") text = Spec.replace_hyphens text.
Proof.
  unfold replace, Spec.replace_hyphens.
  induction text as [|c text IH]; [done|].
  simpl. rewrite IH. by destruct (c =? 45).
Qed.

Lemma strip_punctuation_eq (text : str) :
  translate_delete punctuation text = Spec.strip_punctuation text.
Proof.
  unfold translate_delete.
  induction text as [|c text IH]; [done|].
  simpl. rewrite IH, <- punctuation_char_eq. unfold is_punctuation.
  by destruct (bool_decide (c ∈ punctuation)).
Qed.

Lemma lowercase_at_eq (s : str) (i : nat) (c : codepoint) :
  lower_ucs4 s i c = Spec.lowercase_at s i c.
Proof.
  unfold lower_ucs4, Spec.lowercase_at.
  destruct (c <? 128) eqn:Hascii.
  - apply N.ltb_lt in Hascii. rewrite small_of_letters by done.
    by assert ((c =? 931) = false) as -> by (apply N.eqb_neq; lia).
  - done.
Qed.

Lemma lower_from_imap (s : str) (i : nat) (rest : str) :
  lower_from s i rest
  = List.concat (imap (λ j, Spec.lowercase_at s (i + j)) rest).
Proof.
  revert i. induction rest as [|c rest IH]; intros i; [done|].
  simpl. rewrite Nat.add_0_r, lowercase_at_eq, IH. do 2 f_equal.
  apply imap_ext. intros j d _. simpl. by rewrite Nat.add_succ_r.
Qed.

Lemma lowercase_eq (text : str) : lower text = Spec.lowercase text.
Proof. unfold lower, Spec.lowercase. by rewrite lower_from_imap. Qed.

Lemma fields_cons (text : str) : ∃ f fs, Spec.fields text = f :: fs.
Proof.
  destruct text as [|c text]; simpl; [by eauto|].
  destruct (Spec.whitespace c); [by eauto|].
  destruct (Spec.fields text); by eauto.
Qed.

Lemma nonempty_rev_app (cur f : str) :
  Spec.nonempty (rev cur ++ f) = Spec.nonempty cur || Spec.nonempty f.
Proof.
  destruct cur as [|c cur]; [done|]. simpl.
  by destruct (rev cur).
Qed.

(** The scanner of [split], started inside a run, yields the non-empty
    fields of the rest with the run put before the first of them. *)
Lemma split_from_fields (cur text : str) :
  split_from cur text =
    match Spec.fields text with
    | f :: fs => List.filter Spec.nonempty ((rev cur ++ f) :: fs)
    | [] => []
    end.
Proof.
  revert cur. induction text as [|c text IH]; intros cur.
  - simpl. rewrite app_nil_r. destruct cur as [|d cur]; [done|].
    simpl. by destruct (rev cur).
  - simpl. rewrite <- whitespace_eq. destruct (isspace c).
    + rewrite app_nil_r.
      specialize (IH []). simpl in IH.
      destruct (fields_cons text) as (f & fs & Hf). rewrite Hf in IH |- *.
      destruct cur as [|d cur]; rewrite IH; simpl; [done|].
      assert (Hne : Spec.nonempty (rev cur ++ [d]) = true)
        by (rewrite nonempty_rev_app; apply orb_true_r).
      by rewrite Hne.
    + rewrite IH. destruct (fields_cons text) as (f & fs & Hf).
      rewrite Hf. simpl. by rewrite <- app_assoc.
Qed.

Lemma split_tokens (text : str) : split text = Spec.tokens text.
Proof.
  unfold split, Spec.tokens. rewrite split_from_fields.
  by destruct (fields_cons text) as (f & fs & ->).
Qed.

Lemma issubset_contains_all (lexicon : gset str) (ws : list str) :
  bool_decide (list_to_set ws ⊆ lexicon) = Spec.contains_all lexicon ws.
Proof.
  unfold Spec.contains_all. apply eq_true_iff_eq.
  rewrite bool_decide_eq_true, forallb_forall. split.
  - intros Hsub w Hw%list_elem_of_In. apply bool_decide_eq_true.
    apply Hsub. by apply elem_of_list_to_set.
  - intros Hall w Hw%elem_of_list_to_set.
    apply list_elem_of_In, Hall in Hw. by apply bool_decide_eq_true in Hw.
Qed.

Lemma is_backchannel_in_spec (lexicon : gset str) (text : str) :
  is_backchannel_in lexicon text = Spec.is_backchannel_spec lexicon text.
Proof.
  unfold is_backchannel_in, Spec.is_backchannel_spec, words, clean_text.
  rewrite replace_hyphens_eq, strip_punctuation_eq, lowercase_eq,
    split_tokens.
  destruct (Spec.tokens _) as [|w ws] eqn:Hw; [done|].
  apply issubset_contains_all.
Qed.

(** C6: [is_backchannel] is the algorithm of the specification, step by
    step, the specification's own reading of hyphen, punctuation,
    lowercase and whitespace included: it is true exactly when every token
    that is left after the hyphens are replaced, the punctuation is
    dropped, the text is lowercased and split on whitespace is in the
    lexicon, which includes the case of no token at all, as on the empty,
    the blank and the lone-punctuation input. So ["Yeah, okay!"] is a
    backchannel, by its tokens ["yeah"] and ["okay"], and ["Yeah but wait"]
    is not. *)
Theorem is_backchannel_refines_spec (text : str) :
  is_backchannel text = Spec.is_backchannel_spec IGNORE_WORDS text
  ∧ (is_backchannel text = true ↔
       Forall (λ tok, tok ∈ IGNORE_WORDS)
         (Spec.tokens
            (Spec.lowercase
               (Spec.strip_punctuation (Spec.replace_hyphens text)))))
  ∧ is_backchannel (py "") = true
  ∧ is_backchannel (py "   ") = true
  ∧ is_backchannel (py ".") = true
  ∧ words (py "Yeah, okay!") = [py "yeah"; py "okay"]
  ∧ is_backchannel (py "Yeah, okay!") = true
  ∧ words (py "Yeah but wait") = [py "yeah"; py "but"; py "wait"]
  ∧ is_backchannel (py "Yeah but wait") = false.
Proof.
  split; [apply is_backchannel_in_spec|].
  split; [|by repeat split].
  unfold is_backchannel. rewrite is_backchannel_in_spec.
  unfold Spec.is_backchannel_spec.
  destruct (Spec.tokens _) as [|w ws] eqn:Hw; [by split|].
  unfold Spec.contains_all. rewrite forallb_forall, Forall_forall.
  split.
  - intros Hall tok Htok%list_elem_of_In. apply Hall in Htok.
    by apply bool_decide_eq_true in Htok.
  - intros Hall tok Htok%list_elem_of_In. apply bool_decide_eq_true.
    by apply Hall.
Qed.

End Refinement.

(** ** The tokens that reach the membership test *)

Section Tokens.

Context `{!CaseTables}.






(** [split] hands out runs of characters of its argument that are not
    whitespace. *)
Lemma split_from_Forall (P : codepoint → Prop) (cur s : str) :
  Forall (λ c, isspace c = false ∧ P c) cur → Forall P s →
  Forall (Forall (λ c, isspace c = false ∧ P c)) (split_from cur s).
Proof.
  revert cur. induction s as [|c s IH]; intros cur Hcur Hs; simpl.
  - destruct cur; [apply Forall_nil_2|].
    apply Forall_cons. split; [by apply Forall_rev|apply Forall_nil_2].
  - apply Forall_cons in Hs as [Hc Hs].
    destruct (isspace c) eqn:Hsp.
    + destruct cur.
      * by apply IH.
      * apply Forall_cons. split; [by apply Forall_rev|by apply IH].
    + apply IH; [|done]. by apply Forall_cons.
Qed.







End Tokens.



(** * Further properties of the classifier and the callbacks *)

(** ** Splitting and stripping *)

Lemma isspace_not_punctuation (c : codepoint) :
  isspace c = true → is_punctuation c = false ∧ c ≠ 0x2D ∧ ascii_lower c = c.
Proof.
  intros Hsp.
  assert (Hc : ¬ (33 <= c <= 126)).
  { unfold isspace in Hsp.
    repeat (apply orb_true_iff in Hsp as [Hsp|Hsp]);
      try (apply andb_true_iff in Hsp as [?%N.leb_le ?%N.leb_le]);
      try (apply N.eqb_eq in Hsp); lia. }
  split; [apply not_punctuation; by left|]. split; [lia|].
  unfold ascii_lower.
  destruct ((65 <=? c) && (c <=? 90)) eqn:Hup; [|done].
  apply andb_true_iff in Hup as [?%N.leb_le ?%N.leb_le]. lia.
Qed.

(** A whitespace character ends the run being read and starts afresh. *)
Lemma split_from_sep (cur a b : str) (c : codepoint) :
  isspace c = true →
  split_from cur (a ++ c :: b) = split_from cur a ++ split_from [] b.
Proof.
  intros Hc. revert cur. induction a as [|x a IH]; intros cur; simpl.
  - rewrite Hc. by destruct cur.
  - destruct (isspace x); [|apply IH].
    destruct cur; rewrite IH; done.
Qed.

Lemma split_from_leading (w x : str) :
  Forall (λ c, isspace c = true) w → split (w ++ x) = split x.
Proof.
  unfold split. induction 1 as [|c w Hc _ IH]; [done|].
  simpl. by rewrite Hc.
Qed.

Lemma split_from_blank (cur w : str) :
  Forall (λ c, isspace c = true) w → split_from cur w = split_from cur [].
Proof.
  intros Hw. revert cur. induction Hw as [|c w Hc _ IH]; intros cur; [done|].
  simpl. rewrite Hc. destruct cur; rewrite IH; done.
Qed.

Lemma split_from_trailing (cur x w : str) :
  Forall (λ c, isspace c = true) w → split_from cur (x ++ w) = split_from cur x.
Proof.
  intros Hw. revert cur. induction x as [|c x IH]; intros cur.
  - by apply split_from_blank.
  - simpl. destruct (isspace c); [|apply IH].
    destruct cur; by rewrite IH.
Qed.

(** A run without whitespace is one word. *)
Lemma split_from_word (cur x : str) :
  Forall (λ c, isspace c = false) x →
  split_from cur x = match rev cur ++ x with [] => [] | w => [w] end.
Proof.
  intros Hx. revert cur. induction Hx as [|c x Hc _ IH]; intros cur; simpl.
  - rewrite app_nil_r. destruct cur as [|d cur]; [done|].
    simpl. by destruct (rev cur).
  - rewrite Hc, IH. simpl. by rewrite <- app_assoc.
Qed.

Lemma lstrip_split (s : str) :
  ∃ w, Forall (λ c, isspace c = true) w ∧ s = w ++ lstrip s.
Proof.
  induction s as [|c s (w & Hw & IH)]; [by exists []|].
  simpl. destruct (isspace c) eqn:Hc.
  - exists (c :: w). split; [by apply Forall_cons|]. simpl. by rewrite <- IH.
  - by exists [].
Qed.

(** What [strip] removes is whitespace on both sides. *)
Lemma strip_split (s : str) :
  ∃ w1 w2, Forall (λ c, isspace c = true) w1
           ∧ Forall (λ c, isspace c = true) w2
           ∧ s = w1 ++ strip s ++ w2.
Proof.
  destruct (lstrip_split s) as (w1 & Hw1 & Hs).
  destruct (lstrip_split (rev (lstrip s))) as (w2 & Hw2 & Hr).
  exists w1, (rev w2). split; [done|]. split; [by apply Forall_rev|].
  rewrite Hs at 1. f_equal. unfold strip, rstrip.
  rewrite <- rev_app_distr, <- Hr. by rewrite rev_involutive.
Qed.

Lemma lstrip_nil (s : str) :
  lstrip s = [] ↔ Forall (λ c, isspace c = true) s.
Proof.
  induction s as [|c s IH]; [by split|]. simpl.
  destruct (isspace c) eqn:Hc.
  - rewrite IH. split; [by apply Forall_cons_2|by intros [_ ?]%Forall_cons].
  - split; [done|]. intros [Hc' _]%Forall_cons. congruence.
Qed.

Lemma strip_nil (s : str) :
  strip s = [] ↔ Forall (λ c, isspace c = true) s.
Proof.
  split.
  - intros Hs. destruct (strip_split s) as (w1 & w2 & Hw1 & Hw2 & Heq).
    rewrite Heq, Hs. by apply Forall_app.
  - intros Hs. apply lstrip_nil in Hs. unfold strip, rstrip.
    by rewrite Hs.
Qed.

(** ** What the cleaning of a text makes of it *)

Section Normalisation.

Context `{!CaseTables}.

Lemma lower_from_app (s : str) (i : nat) (a b : str) :
  lower_from s i (a ++ b)
  = lower_from s i a ++ lower_from s (i + length a)%nat b.
Proof.
  revert i. induction a as [|c a IH]; intros i; simpl.
  - by rewrite Nat.add_0_r.
  - by rewrite IH, Nat.add_succ_r, <- app_assoc.
Qed.

(** Only a capital sigma is lowercased by its context. *)
Lemma lower_from_context (s s' : str) (i i' : nat) (x : str) :
  0x3A3 ∉ x → lower_from s i x = lower_from s' i' x.
Proof.
  revert i i'. induction x as [|c x IH]; intros i i' Hx; [done|].
  apply not_elem_of_cons in Hx as [Hc Hx]. simpl.
  rewrite (IH (S i) (S i')) by done. f_equal. unfold lower_ucs4.
  by assert ((c =? 931) = false) as -> by (apply N.eqb_neq; congruence).
Qed.

Lemma lower_from_ascii (s : str) (i : nat) (x : str) :
  Forall (λ c, c < 128) x → lower_from s i x = List.map ascii_lower x.
Proof.
  intros Hx. revert i. induction Hx as [|c x Hc _ IH]; intros i; [done|].
  simpl. rewrite IH. unfold lower_ucs4.
  assert ((c =? 931) = false) as -> by (apply N.eqb_neq; lia).
  by assert ((c <? 128) = true) as -> by (by apply N.ltb_lt).
Qed.

(** The text as [lower] receives it, one character at a time. *)
Lemma prepared_eq (text : str) :
  translate_delete punctuation (replace 0x2D (py " ") text)
  = List.filter (λ c, negb (is_punctuation c))
      (List.map (λ c, if c =? 0x2D then 0x20 else c) text).
Proof. by rewrite replace_hyphens_eq. Qed.

Lemma prepared_app (a b : str) :
  translate_delete punctuation (replace 0x2D (py " ") (a ++ b))
  = translate_delete punctuation (replace 0x2D (py " ") a)
    ++ translate_delete punctuation (replace 0x2D (py " ") b).
Proof. by rewrite !prepared_eq, List.map_app, List.filter_app. Qed.

Lemma prepared_elem (c : codepoint) (text : str) :
  c ∈ translate_delete punctuation (replace 0x2D (py " ") text) →
  c ∈ text ∨ c = 0x20.
Proof.
  rewrite prepared_eq.
  intros [(d & <- & Hd)%in_map_iff _]%list_elem_of_In%filter_In.
  destruct (d =? 45); [by right|]. left. by apply list_elem_of_In.
Qed.

Lemma prepared_blank (w : str) :
  Forall (λ c, isspace c = true) w →
  translate_delete punctuation (replace 0x2D (py " ") w) = w.
Proof.
  rewrite prepared_eq. induction 1 as [|c w Hc _ IH]; [done|].
  destruct (isspace_not_punctuation c Hc) as (Hp & Hh & _).
  simpl. apply N.eqb_neq in Hh. by rewrite Hh, Hp, IH.
Qed.

Lemma prepared_ascii (text : str) :
  Forall (λ c, c < 128) text →
  Forall (λ c, c < 128)
    (translate_delete punctuation (replace 0x2D (py " ") text)).
Proof.
  intros Htext. apply Forall_forall. intros c [Hc| ->]%prepared_elem; [|lia].
  rewrite Forall_forall in Htext. by apply Htext.
Qed.

Lemma clean_text_ascii (text : str) :
  Forall (λ c, c < 128) text →
  clean_text text
  = List.map ascii_lower
      (translate_delete punctuation (replace 0x2D (py " ") text)).
Proof.
  intros Htext. unfold clean_text, lower.
  by apply lower_from_ascii, prepared_ascii.
Qed.

(** The classifier is a test of every word. *)
Lemma is_backchannel_in_forallb (lexicon : gset str) (text : str) :
  is_backchannel_in lexicon text
  = forallb (λ w, bool_decide (w ∈ lexicon)) (words text).
Proof.
  unfold is_backchannel_in. destruct (words text) as [|w ws] eqn:Hw; [done|].
  apply issubset_contains_all.
Qed.

End Normalisation.

(** ** Texts the classifier cannot tell apart *)

Section Insensitive.

Context `{!CaseTables}.

(** X1: punctuation marks other than the hyphen play no part: with all of
    them deleted from the text, the cleaned text, the words and the answer
    of the classifier, against any lexicon, are what they were. *)
Theorem punctuation_ignored (lexicon : gset str) (text : str) :
  clean_text
    (List.filter (λ c, negb (is_punctuation c) || (c =? 0x2D)) text)
  = clean_text text
  ∧ is_backchannel_in lexicon
      (List.filter (λ c, negb (is_punctuation c) || (c =? 0x2D)) text)
    = is_backchannel_in lexicon text.
Proof.
  assert (Hclean : clean_text
            (List.filter (λ c, negb (is_punctuation c) || (c =? 0x2D)) text)
          = clean_text text).
  { unfold clean_text. f_equal. rewrite !prepared_eq.
    assert (Hspace : is_punctuation 32 = false) by by vm_compute.
    induction text as [|c text IH]; [done|].
    cbn [List.filter List.map].
    destruct (c =? 45) eqn:Hh; destruct (is_punctuation c) eqn:Hp;
      cbn [negb orb List.filter List.map];
      rewrite ?Hh, ?Hspace, ?Hp; cbn [negb]; by rewrite ?IH. }
  split; [done|]. unfold is_backchannel_in, words. by rewrite Hclean.
Qed.

(** X2: a hyphen counts as a space: the text with its hyphens already
    replaced by spaces has the same words and gets the same answer. *)
Theorem hyphen_is_space (lexicon : gset str) (text : str) :
  words (List.map (λ c, if c =? 0x2D then 0x20 else c) text) = words text
  ∧ is_backchannel_in lexicon
      (List.map (λ c, if c =? 0x2D then 0x20 else c) text)
    = is_backchannel_in lexicon text.
Proof.
  assert (Hwords :
    words (List.map (λ c, if c =? 0x2D then 0x20 else c) text) = words text).
  { unfold words, clean_text. do 2 f_equal. rewrite !prepared_eq. f_equal.
    rewrite List.map_map. apply List.map_ext. intros c.
    by destruct (c =? 45) eqn:Hh; [|rewrite Hh]. }
  split; [done|]. unfold is_backchannel_in. by rewrite Hwords.
Qed.

Lemma ascii_lower_hyphen (c : codepoint) :
  (if ascii_lower c =? 0x2D then 0x20 else ascii_lower c)
  = ascii_lower (if c =? 0x2D then 0x20 else c).
Proof.
  unfold ascii_lower. destruct ((65 <=? c) && (c <=? 90)) eqn:Hup.
  - apply andb_true_iff in Hup as [H1%N.leb_le H2%N.leb_le].
    assert ((c =? 45) = false) as -> by (apply N.eqb_neq; lia).
    assert ((c + 32 =? 45) = false) as -> by (apply N.eqb_neq; lia).
    assert ((65 <=? c) && (c <=? 90) = true) as ->; [|done].
    apply andb_true_iff. split; by apply N.leb_le.
  - destruct (c =? 45) eqn:Hh; [done|]. by rewrite Hup.
Qed.

Lemma ascii_lower_punctuation (c : codepoint) :
  is_punctuation (ascii_lower c) = is_punctuation c.
Proof.
  unfold ascii_lower. destruct ((65 <=? c) && (c <=? 90)) eqn:Hup; [|done].
  apply andb_true_iff in Hup as [H1%N.leb_le H2%N.leb_le].
  rewrite !not_punctuation; [done|lia|lia].
Qed.

Lemma prepared_ascii_lower (text : str) :
  List.map ascii_lower
    (translate_delete punctuation (replace 0x2D (py " ") text))
  = translate_delete punctuation
      (replace 0x2D (py " ") (List.map ascii_lower text)).
Proof.
  rewrite !prepared_eq. induction text as [|c text IH]; [done|]. simpl.
  rewrite ascii_lower_hyphen, ascii_lower_punctuation.
  destruct (is_punctuation _); simpl; by rewrite IH.
Qed.

(** X3: on ASCII text the case of the letters plays no part: two texts that
    agree once their letters [A-Z] are lowered have the same words and get
    the same answer. *)
Theorem ascii_case_ignored (lexicon : gset str) (text1 text2 : str) :
  Forall (λ c, c < 128) text1 → Forall (λ c, c < 128) text2 →
  List.map ascii_lower text1 = List.map ascii_lower text2 →
  words text1 = words text2
  ∧ is_backchannel_in lexicon text1 = is_backchannel_in lexicon text2.
Proof.
  intros H1 H2 Heq.
  assert (Hwords : words text1 = words text2).
  { unfold words. rewrite !clean_text_ascii by done.
    by rewrite !prepared_ascii_lower, Heq. }
  split; [done|]. unfold is_backchannel_in. by rewrite Hwords.
Qed.

Lemma map_ascii_lower_blank (w : str) :
  Forall (λ c, isspace c = true) w → List.map ascii_lower w = w.
Proof.
  induction 1 as [|c w Hc _ IH]; [done|]. simpl.
  destruct (isspace_not_punctuation c Hc) as (_ & _ & ->). by rewrite IH.
Qed.

(** X4: on ASCII text, whitespace around the text plays no part: the
    stripped text that [on_transcription] hands to [should_interrupt] has
    the words of the raw text and gets the same answers. *)
Theorem strip_ignored (text : str) (is_agent_speaking : bool) :
  Forall (λ c, c < 128) text →
  words (strip text) = words text
  ∧ is_backchannel (strip text) = is_backchannel text
  ∧ should_interrupt (strip text) is_agent_speaking
    = should_interrupt text is_agent_speaking.
Proof.
  intros Htext.
  assert (Hwords : words (strip text) = words text).
  { destruct (strip_split text) as (w1 & w2 & Hw1 & Hw2 & Heq).
    assert (Hcore : Forall (λ c, c < 128) (strip text)).
    { rewrite Heq in Htext.
      by apply Forall_app in Htext as [_ [? _]%Forall_app]. }
    unfold words. rewrite (clean_text_ascii text) by done.
    rewrite Heq at 2. rewrite !prepared_app, !List.map_app.
    rewrite (prepared_blank w1), (prepared_blank w2) by done.
    rewrite (map_ascii_lower_blank w1), (map_ascii_lower_blank w2) by done.
    rewrite <- clean_text_ascii by done.
    rewrite split_from_leading by done. symmetry.
    by apply split_from_trailing. }
  split; [done|].
  assert (Hb : is_backchannel (strip text) = is_backchannel text).
  { unfold is_backchannel, is_backchannel_in. by rewrite Hwords. }
  split; [done|]. unfold should_interrupt. by rewrite Hb.
Qed.

End Insensitive.

Lemma ascii_case_ignored_witness :
  @words ascii_tables (py "YEAH, Ok") = @words ascii_tables (py "yeah, oK")
  ∧ @is_backchannel_in ascii_tables IGNORE_WORDS (py "YEAH, Ok")
    = @is_backchannel_in ascii_tables IGNORE_WORDS (py "yeah, oK").
Proof.
  apply (@ascii_case_ignored ascii_tables IGNORE_WORDS
           (py "YEAH, Ok") (py "yeah, oK")).
  - repeat (apply Forall_cons; split; [reflexivity|]). apply Forall_nil_2.
  - repeat (apply Forall_cons; split; [reflexivity|]). apply Forall_nil_2.
  - reflexivity.
Defined.

Lemma strip_ignored_witness :
  @words ascii_tables (strip (py "  Yeah, wait! "))
  = @words ascii_tables (py "  Yeah, wait! ")
  ∧ @is_backchannel ascii_tables (strip (py "  Yeah, wait! "))
    = @is_backchannel ascii_tables (py "  Yeah, wait! ")
  ∧ @should_interrupt ascii_tables (strip (py "  Yeah, wait! ")) true
    = @should_interrupt ascii_tables (py "  Yeah, wait! ") true.
Proof.
  apply (@strip_ignored ascii_tables (py "  Yeah, wait! ") true).
  repeat (apply Forall_cons; split; [reflexivity|]). apply Forall_nil_2.
Defined.

(** ** How the classifier composes *)

Section Composition.

Context `{!CaseTables}.

Lemma prepared_sigma_free (text : str) :
  0x3A3 ∉ text →
  0x3A3 ∉ translate_delete punctuation (replace 0x2D (py " ") text).
Proof. intros Htext [Hin|Heq]%prepared_elem; [done|lia]. Qed.

(** X5: the words of two texts joined by a hyphen or an ASCII whitespace
    character are the words of the first followed by those of the second,
    and the joined text is a backchannel exactly when both are. The texts
    hold no capital sigma, the one letter whose lowercase form depends on
    its neighbours. *)
Theorem words_of_joined
    (lexicon : gset str) (text1 text2 : str) (sep : codepoint) :
  sep = 0x2D ∨ (isspace sep = true ∧ sep < 128) →
  0x3A3 ∉ text1 → 0x3A3 ∉ text2 →
  words (text1 ++ sep :: text2) = words text1 ++ words text2
  ∧ is_backchannel_in lexicon (text1 ++ sep :: text2)
    = is_backchannel_in lexicon text1 && is_backchannel_in lexicon text2.
Proof.
  intros Hsep H1 H2.
  assert (Hs : ∃ sp, isspace sp = true ∧ sp < 128
     ∧ translate_delete punctuation (replace 0x2D (py " ") [sep]) = [sp]).
  { destruct Hsep as [->|[Hsp Hascii]].
    - exists 32. by repeat split.
    - exists sep. repeat split; [done..|].
      apply prepared_blank. by apply Forall_singleton. }
  destruct Hs as (sp & Hsp & Hascii & Hprep).
  assert (Hwords : words (text1 ++ sep :: text2) = words text1 ++ words text2).
  { unfold words, clean_text, lower.
    change (text1 ++ sep :: text2) with (text1 ++ [sep] ++ text2).
    rewrite !prepared_app, Hprep.
    apply prepared_sigma_free in H1, H2.
    set (a := translate_delete punctuation (replace 45 (py " ") text1)) in *.
    set (b := translate_delete punctuation (replace 45 (py " ") text2)) in *.
    generalize (a ++ [sp] ++ b) at 1. intros s.
    rewrite !lower_from_app.
    rewrite (lower_from_context s a 0 0 a) by done.
    rewrite (lower_from_context s b _ 0 b) by done.
    rewrite (lower_from_ascii s _ [sp]) by (by apply Forall_singleton).
    simpl. destruct (isspace_not_punctuation sp Hsp) as (_ & _ & ->).
    unfold split. by apply split_from_sep. }
  split; [done|].
  by rewrite !is_backchannel_in_forallb, Hwords, forallb_app.
Qed.

Lemma is_backchannel_in_true (lexicon : gset str) (text : str) :
  is_backchannel_in lexicon text = true
  ↔ Forall (λ w, w ∈ lexicon) (words text).
Proof.
  rewrite is_backchannel_in_forallb, forallb_forall, Forall_forall. split.
  - intros Hall w Hw%list_elem_of_In%Hall. by apply bool_decide_eq_true in Hw.
  - intros Hall w Hw%list_elem_of_In%Hall. by apply bool_decide_eq_true.
Qed.

(** X6: [on_transcription] interrupts the agent exactly when the agent is
    speaking and some word of the stripped text is not in [IGNORE_WORDS]. *)
Theorem interrupt_iff (s : session) (msg : message) :
  interrupt ∈ on_transcription s msg
  ↔ is_speaking s = true
    ∧ ∃ w, w ∈ words (strip (content msg)) ∧ w ∉ IGNORE_WORDS.
Proof.
  assert (Hno : is_backchannel (strip (content msg)) = false
                ↔ ∃ w, w ∈ words (strip (content msg)) ∧ w ∉ IGNORE_WORDS).
  { unfold is_backchannel. rewrite <- not_true_iff_false.
    rewrite is_backchannel_in_true, <- Exists_exists.
    split; [by apply not_Forall_Exists; apply _|].
    intros Hex Hall. apply Exists_exists in Hex as (w & Hw & Hout).
    rewrite Forall_forall in Hall. by apply Hout, Hall. }
  unfold on_transcription, on_transcription_with, should_interrupt.
  destruct (strip (content msg)) as [|c text] eqn:Htext.
  - split; [by intros ?%elem_of_nil|].
    intros [_ (w & Hw & _)]. by apply elem_of_nil in Hw.
  - destruct (is_speaking s); simpl.
    + destruct (is_backchannel (c :: text)) eqn:Hb.
      * split.
        -- intros [?|?%elem_of_nil]%elem_of_cons; done.
        -- intros [_ Hex]. apply Hno in Hex. congruence.
      * split; [|intros _; by repeat constructor].
        intros _. split; [done|]. by apply Hno.
    + split; [by intros ?%elem_of_nil|]. by intros [? _].
Qed.

(** X7: entries added to the lexicon never turn a backchannel into an
    interruption: a text that passes against a lexicon passes against every
    larger one. *)
Theorem lexicon_monotone (lexicon1 lexicon2 : gset str) (text : str) :
  lexicon1 ⊆ lexicon2 →
  is_backchannel_in lexicon1 text = true →
  is_backchannel_in lexicon2 text = true.
Proof.
  intros Hsub. rewrite !is_backchannel_in_true. intros Hall.
  eapply Forall_impl; [exact Hall|]. intros w Hw. by apply Hsub.
Qed.

(** X8: against an empty lexicon only the texts without a word pass. *)
Theorem empty_lexicon (text : str) :
  is_backchannel_in ∅ text = true ↔ words text = [].
Proof.
  rewrite is_backchannel_in_true. destruct (words text) as [|w ws].
  - by split.
  - split; [|done]. intros [Hw _]%Forall_cons. by apply not_elem_of_empty in Hw.
Qed.

(** X9: a token in canonical form that is not empty is, as a text, its one
    word, so it passes exactly when it is an entry of the lexicon. *)
Theorem canonical_word (lexicon : gset str) (tok : str) :
  canonical tok = true → tok ≠ [] →
  words tok = [tok]
  ∧ is_backchannel_in lexicon tok = bool_decide (tok ∈ lexicon).
Proof.
  intros Hcan Hne. unfold canonical in Hcan.
  apply andb_true_iff in Hcan as [Hlow%bool_decide_eq_true Hchars].
  rewrite forallb_forall in Hchars.
  assert (Hprep : translate_delete punctuation (replace 0x2D (py " ") tok)
                  = tok).
  { rewrite prepared_eq. clear Hlow Hne.
    induction tok as [|c tok IH]; [done|].
    pose proof (Hchars c (or_introl eq_refl)) as Hc.
    apply andb_true_iff in Hc as [_ Hp%negb_true_iff].
    assert (Hh : (c =? 45) = false).
    { apply N.eqb_neq. intros ->. by vm_compute in Hp. }
    simpl. rewrite Hh, Hp, IH; [done|].
    intros d Hd. apply Hchars. by right. }
  assert (Hwords : words tok = [tok]).
  { unfold words, clean_text. rewrite Hprep, Hlow. unfold split.
    rewrite split_from_word.
    - simpl. by destruct tok.
    - apply Forall_forall. intros c Hc%list_elem_of_In%Hchars.
      by apply andb_true_iff in Hc as [?%negb_true_iff _]. }
  split; [done|].
  rewrite is_backchannel_in_forallb, Hwords. simpl. apply andb_true_r.
Qed.

(** X10: the two callbacks keep to their own action: [on_transcription]
    never generates a reply, [on_user_speech_committed] never interrupts,
    and in one state of the session they do not both act. *)
Theorem callbacks_exclusive (s : session) (msg1 msg2 : message) :
  (generate_reply ∉ on_transcription s msg1)
  ∧ (interrupt ∉ on_user_speech_committed s msg2)
  ∧ ¬ (interrupt ∈ on_transcription s msg1
       ∧ generate_reply ∈ on_user_speech_committed s msg2).
Proof.
  assert (Hnil : ∀ e : effect, e ∉ @nil effect)
    by (intros e; apply not_elem_of_nil).
  unfold on_transcription, on_transcription_with, on_user_speech_committed.
  destruct (is_speaking s); simpl.
  - split; [|split; [apply Hnil|by intros [_ ?%Hnil]]].
    destruct (strip (content msg1)) as [|c text]; [apply Hnil|].
    destruct (should_interrupt (c :: text) true).
    + by intros [?|[?|?%Hnil]%elem_of_cons]%elem_of_cons.
    + by intros [?|?%Hnil]%elem_of_cons.
  - destruct (strip (content msg1)) as [|c text];
      unfold should_interrupt; simpl;
      (split; [apply Hnil|]; split; [|by intros [?%Hnil _]]);
      by intros [?|[?|?%Hnil]%elem_of_cons]%elem_of_cons.
Qed.

(** X11: [on_transcription] stays without any effect exactly when the agent
    is not speaking or the text holds nothing but whitespace. *)
Theorem on_transcription_idle_iff (s : session) (msg : message) :
  on_transcription s msg = []
  ↔ is_speaking s = false ∨ Forall (λ c, isspace c = true) (content msg).
Proof.
  rewrite <- strip_nil.
  unfold on_transcription, on_transcription_with, should_interrupt.
  destruct (strip (content msg)) as [|c text]; [by split; [right|]|].
  destruct (is_speaking s); simpl.
  - destruct (is_backchannel (c :: text)); split; try done;
      by intros [?|?].
  - split; [by left|done].
Qed.

End Composition.

Lemma words_of_joined_witness :
  @words ascii_tables (py "yeah" ++ 0x2D :: py "okay")
  = @words ascii_tables (py "yeah") ++ @words ascii_tables (py "okay")
  ∧ @is_backchannel_in ascii_tables IGNORE_WORDS
      (py "yeah" ++ 0x2D :: py "okay")
    = @is_backchannel_in ascii_tables IGNORE_WORDS (py "yeah")
      && @is_backchannel_in ascii_tables IGNORE_WORDS (py "okay").
Proof.
  apply (@words_of_joined ascii_tables IGNORE_WORDS
           (py "yeah") (py "okay") 0x2D).
  - left. reflexivity.
  - apply (bool_decide_unpack _). vm_compute. reflexivity.
  - apply (bool_decide_unpack _). vm_compute. reflexivity.
Defined.

Lemma lexicon_monotone_witness :
  @is_backchannel_in ascii_tables IGNORE_WORDS (py "Yeah!") = true.
Proof.
  apply (@lexicon_monotone ascii_tables {[ py "yeah" ]} IGNORE_WORDS
           (py "Yeah!")).
  - apply (bool_decide_unpack _). vm_compute. reflexivity.
  - vm_compute. reflexivity.
Defined.

Lemma canonical_word_witness :
  @words ascii_tables (py "okay") = [py "okay"]
  ∧ @is_backchannel_in ascii_tables IGNORE_WORDS (py "okay")
    = bool_decide (py "okay" ∈ IGNORE_WORDS).
Proof.
  apply (@canonical_word ascii_tables IGNORE_WORDS (py "okay")).
  - vm_compute. reflexivity.
  - discriminate.
Defined.

(** ** The shape of a word *)

Lemma split_from_nonempty (cur s : str) :
  Forall (λ w, w ≠ []) (split_from cur s).
Proof.
  assert (Hrev : ∀ (d : codepoint) (l : str), rev (d :: l) ≠ []).
  { intros d l. simpl. by destruct (rev l). }
  revert cur. induction s as [|c s IH]; intros cur; simpl.
  - destruct cur as [|d cur]; [apply Forall_nil_2|].
    apply Forall_cons. split; [apply Hrev|apply Forall_nil_2].
  - destruct (isspace c); [|apply IH].
    destruct cur as [|d cur]; [apply IH|].
    apply Forall_cons. split; [apply Hrev|apply IH].
Qed.

(** X12: whatever the text and the case tables, every word that reaches the
    membership test has a character and holds no whitespace. *)
Theorem words_nonblank `{!CaseTables} (text : str) :
  Forall (λ w, w ≠ [] ∧ Forall (λ c, isspace c = false) w) (words text).
Proof.
  unfold words, split. apply Forall_and. split.
  - apply split_from_nonempty.
  - pose proof (split_from_Forall (λ _, True) [] (clean_text text)
                  (Forall_nil_2 _)) as Hall.
    eapply Forall_impl; [apply Hall; by apply Forall_true|].
    intros w Hw. eapply Forall_impl; [exact Hw|]. by intros c [? _].
Qed.
